(** * pico2-gc-controller-firmware: the device-side communication core

    Shallow embedding of [src/src/usbproto.py] (frame codec),
    [src/src/main.py] (transport selection, dispatcher, serving loop) and
    [src/src/boot.py] (boot-mode decision), on top of a model of the
    MicroPython runtime pieces they call ([ustruct], [ujson], [os],
    [machine.Pin], [time], [gc]).

    Bytes: MicroPython keeps a [str] as its UTF-8 bytes and
    [str.encode('utf-8')] returns those bytes unchanged, so both [str] and
    [bytes] are modelled as [string], a sequence of 8-bit characters. *)

Set Warnings "-register-all".
From Stdlib Require Import String Ascii List ZArith NArith Bool Lia.
Import ListNotations.
Open Scope string_scope.

Definition bytes : Type := string.

(** ** Small string helpers *)

Fixpoint str_take (n : nat) (s : string) : string :=
  match n, s with
  | O, _ => ""
  | S n', String c s' => String c (str_take n' s')
  | S _, EmptyString => ""
  end.

Fixpoint str_drop (n : nat) (s : string) : string :=
  match n, s with
  | O, _ => s
  | S n', String _ s' => str_drop n' s'
  | S _, EmptyString => ""
  end.

Fixpoint str_repeat (n : nat) (c : ascii) : string :=
  match n with O => "" | S n' => String c (str_repeat n' c) end.

Fixpoint join (sep : string) (l : list string) : string :=
  match l with
  | [] => ""
  | [x] => x
  | x :: r => x ++ sep ++ join sep r
  end.

(** ** [ustruct.pack('>I', n)] and [ustruct.unpack('>I', b)]

    MicroPython's [ustruct] stores the low four bytes of the integer
    (no range check), most significant first. *)

Definition byte_at (n : N) (shift : N) : ascii :=
  ascii_of_N (N.land (N.shiftr n shift) 255).

Definition pack_be32 (n : N) : bytes :=
  String (byte_at n 24) (String (byte_at n 16)
    (String (byte_at n 8) (String (byte_at n 0) ""))).

Definition unpack_be32 (hdr : bytes) : N :=
  match hdr with
  | String b0 (String b1 (String b2 (String b3 _))) =>
      N_of_ascii b0 * 16777216 + N_of_ascii b1 * 65536
      + N_of_ascii b2 * 256 + N_of_ascii b3
  | _ => 0
  end.

(** ** Python values carried by the protocol

    [None], booleans, integers, floats, strings, lists and dicts with
    string keys. A dict is the list of its items. MicroPython iterates a
    dict in the order of its hash table, which the model does not fix: the
    list order stands for it, and a key is listed once.

    A float is kept as the text MicroPython's [float_print] writes for it,
    which [repr], [str] and [json.dumps] all use. That text is never empty,
    e.g. "0.5", "1e+100" or "inf". *)

Record Flt := MkFlt { flt_head : ascii; flt_tail : string }.

Definition flt_text (f : Flt) : string := String (flt_head f) (flt_tail f).


Inductive Value : Type :=
| VNone
| VBool (b : bool)
| VInt (z : Z)
| VFloat (f : Flt)
| VStr (s : string)
| VList (l : list Value)
| VDict (d : list (string * Value)).

(** *** Decimal digits *)

Definition digit_char (d : N) : ascii := ascii_of_N (48 + d).

Fixpoint n_digits (fuel : nat) (n : N) (acc : string) : string :=
  match fuel with
  | O => acc
  | S f =>
      let acc' := String (digit_char (n mod 10)) acc in
      if (n <? 10)%N then acc' else n_digits f (n / 10) acc'
  end.

Definition n_repr (n : N) : string :=
  n_digits (S (N.to_nat (N.log2 n))) n "".

Definition int_repr (z : Z) : string :=
  if (z <? 0)%Z then String "-" (n_repr (Z.to_N (- z))) else n_repr (Z.to_N z).

(** *** [json.dumps]: MicroPython's [mp_str_print_json] for strings, and
    the [", "] / [": "] separators of its list and dict printers. *)

(** The double quote character, code 34. *)
Definition DQ : ascii := ascii_of_nat 34.

Definition hex_char (d : N) : ascii :=
  if (d <? 10)%N then ascii_of_N (48 + d) else ascii_of_N (87 + d).

Definition esc1 (c : ascii) : string :=
  let n := N_of_ascii c in
  if Ascii.eqb c DQ || Ascii.eqb c "\" then String "\" (String c "")
  else if (32 <=? n)%N then String c ""
  else if Ascii.eqb c "010" then "\n"
  else if Ascii.eqb c "013" then "\r"
  else if Ascii.eqb c "009" then "\t"
  else String "\" (String "u" (String "0" (String "0"
         (String (hex_char (n / 16)) (String (hex_char (n mod 16)) ""))))).

Fixpoint esc (s : string) : string :=
  match s with
  | EmptyString => ""
  | String c s' => esc1 c ++ esc s'
  end.

Definition json_str (s : string) : string := String DQ (esc s ++ String DQ "").

Fixpoint dumps (v : Value) : string :=
  match v with
  | VNone => "null"
  | VBool true => "true"
  | VBool false => "false"
  | VInt z => int_repr z
  | VFloat f => flt_text f
  | VStr s => json_str s
  | VList l => "[" ++ join ", " (map dumps l) ++ "]"
  | VDict d =>
      "{" ++ join ", " (map (fun '(k, x) => json_str k ++ ": " ++ dumps x) d) ++ "}"
  end.

(** Python exceptions, with the text [str(e)] gives. *)
Inductive ExcKind := OSError | ValueError | AttributeError.

Record exn := Exn { exc_kind : ExcKind; exc_msg : string }.

Definition json_error : exn := Exn ValueError "syntax error in JSON".

Inductive Result (A : Type) := Ok (a : A) | Err (e : exn).
Arguments Ok {A} a.
Arguments Err {A} e.

(** *** [json.loads]: MicroPython's [mod_json_load] (extmod/modjson.c)

    The text is read one character at a time. [S_CUR] is the current
    character and [S_NEXT] moves on; past the end both give NUL, so a NUL
    character in the text also reads as the end ([S_END]) wherever the code
    tests for it. There is no recursion: open containers are kept on a
    stack, and [stack_key] is one variable shared by all levels. The
    characters [, : space \t \n \r] are skipped wherever they occur between
    values, and the order of values, commas and colons is not checked.
    Every failure raises [ValueError("syntax error in JSON")], except an
    integer token that [mp_parse_num_integer] rejects.

    Two cases lie outside the model, and there [mod_json_load] returns
    [None]: a number token with '.', 'e' or 'E', which the runtime reads
    with [mp_parse_num_float]; and a dict entry whose key is not a string
    (the model's dicts have string keys). Everywhere else it returns
    [Some] of the outcome. *)

Definition NUL : ascii := "000".

(** [unichar_isspace]: space and the characters 9 to 13. *)
Definition unichar_isspace (c : ascii) : bool :=
  let n := N_of_ascii c in (n =? 32)%N || ((9 <=? n)%N && (n <=? 13)%N).

(** The characters the main loop skips. *)
Definition json_skip (c : ascii) : bool :=
  Ascii.eqb c "," || Ascii.eqb c ":" || Ascii.eqb c " " || Ascii.eqb c "009"
  || Ascii.eqb c "010" || Ascii.eqb c "013".

Definition is_digit (c : ascii) : bool :=
  let n := N_of_ascii c in (48 <=? n)%N && (n <=? 57)%N.

Definition is_flt_char (c : ascii) : bool :=
  Ascii.eqb c "." || Ascii.eqb c "e" || Ascii.eqb c "E".

Definition is_num_char (c : ascii) : bool :=
  is_digit c || Ascii.eqb c "+" || Ascii.eqb c "-" || is_flt_char c.

(** The rest of a number token after its first character: the longest run
    of digits and [+ - . e E]. *)
Fixpoint num_tail (s : string) : string * string :=
  match s with
  | String c s' =>
      if is_num_char c then let (t, r) := num_tail s' in (String c t, r)
      else ("", s)
  | EmptyString => ("", "")
  end.

Fixpoint has_flt (s : string) : bool :=
  match s with
  | String c s' => is_flt_char c || has_flt s'
  | EmptyString => false
  end.

Fixpoint digits_val (acc : N) (s : string) : option N :=
  match s with
  | EmptyString => Some acc
  | String c s' =>
      if is_digit c then digits_val (acc * 10 + (N_of_ascii c - 48)) s'
      else None
  end.

(** [mp_parse_num_integer(tok, len, 10, NULL)] on a token of digits and
    signs: an optional sign, then digits up to the end of the token (a
    value beyond a small int goes through [mpz], with the same result). A
    token it rejects raises [ValueError] with MicroPython's detailed
    message, which quotes the token from after the sign. *)
Definition int_syntax_error (body : string) : exn :=
  Exn ValueError ("invalid syntax for integer with base 10: '" ++ body ++ "'").

Definition parse_int10 (tok : string) : Result Z :=
  let '(neg, body) :=
    match tok with
    | String c r =>
        if Ascii.eqb c "-" then (true, r)
        else if Ascii.eqb c "+" then (false, r) else (false, tok)
    | EmptyString => (false, tok)
    end in
  match body, digits_val 0 body with
  | String _ _, Some n => Ok (if neg then Z.opp (Z.of_N n) else Z.of_N n)
  | _, _ => Err (int_syntax_error body)
  end.

(** One digit of a [\uXXXX] escape, on a byte:
    [c = (S_NEXT(s) | 0x20) - '0'; if (c > 9) c -= ('a' - '0') - 10;]
    No digit is rejected. *)
Definition hex_digit (d : ascii) : N :=
  let c := ((N.lor (N_of_ascii d) 32 + 256 - 48) mod 256)%N in
  if (9 <? c)%N then ((c + 256 - 39) mod 256)%N else c.

(** [num = num << 4 | c], four times from 0. *)
Definition hex4 (a b c d : ascii) : N :=
  fold_left (fun num h => N.lor (N.shiftl num 4) (hex_digit h)) [a; b; c; d] 0%N.

(** [vstr_add_char]: a code point as its UTF-8 bytes. *)
Definition utf8 (cp : N) : string :=
  if (cp <? 128)%N then String (ascii_of_N cp) ""
  else if (cp <? 2048)%N then
    String (ascii_of_N (192 + cp / 64)) (String (ascii_of_N (128 + cp mod 64)) "")
  else if (cp <? 65536)%N then
    String (ascii_of_N (224 + cp / 4096))
      (String (ascii_of_N (128 + (cp / 64) mod 64))
         (String (ascii_of_N (128 + cp mod 64)) ""))
  else String (ascii_of_N (240 + cp / 262144))
         (String (ascii_of_N (128 + (cp / 4096) mod 64))
            (String (ascii_of_N (128 + (cp / 64) mod 64))
               (String (ascii_of_N (128 + cp mod 64)) ""))).

(** An escaped character other than [u]: [b f n r t] are mapped, any
    other character stands for itself. *)
Definition unescape (e : ascii) : ascii :=
  if Ascii.eqb e "b" then "008"
  else if Ascii.eqb e "f" then "012"
  else if Ascii.eqb e "n" then "010"
  else if Ascii.eqb e "r" then "013"
  else if Ascii.eqb e "t" then "009"
  else e.

Definition cons_fst (p : string) (o : option (string * string))
  : option (string * string) :=
  match o with Some (t, r) => Some (p ++ t, r) | None => None end.

(** The string loop, after the opening quote: the contents and the text
    after the closing quote, or [None] when [S_END] comes first (a [goto
    fail]). *)
Fixpoint json_string (s : string) : option (string * string) :=
  match s with
  | EmptyString => None
  | String c r =>
      if Ascii.eqb c NUL then None
      else if Ascii.eqb c DQ then Some ("", r)
      else if Ascii.eqb c "\" then
        match r with
        | EmptyString => None
        | String e r2 =>
            if Ascii.eqb e "u" then
              match r2 with
              | String h1 (String h2 (String h3 (String h4 r3))) =>
                  cons_fst (utf8 (hex4 h1 h2 h3 h4)) (json_string r3)
              | _ => None
              end
            else cons_fst (String (unescape e) "") (json_string r2)
        end
      else cons_fst (String c "") (json_string r)
  end.

(** [S_CUR(s) == p[0] && S_NEXT(s) == p[1] && ...]: the text after the
    rest [p] of a keyword. *)
Fixpoint strip (p s : string) : option string :=
  match p with
  | EmptyString => Some s
  | String a p' =>
      match s with
      | String b s' => if Ascii.eqb a b then strip p' s' else None
      | EmptyString => None
      end
  end.

(** [mp_obj_dict_store]: a new key is added, a key already there takes
    the new value. *)
Fixpoint dict_store (d : list (string * Value)) (k : string) (v : Value)
  : list (string * Value) :=
  match d with
  | [] => [(k, v)]
  | (k', v') :: r =>
      if String.eqb k k' then (k, v) :: r else (k', v') :: dict_store r k v
  end.

Definition dict_of_pairs (ps : list (string * Value)) : list (string * Value) :=
  fold_left (fun d '(k, v) => dict_store d k v) ps [].

(** [stack_top] while it is a container. *)
Inductive Cont := CList (items : list Value) | CDict (items : list (string * Value)).

Definition cont_value (c : Cont) : Value :=
  match c with CList l => VList l | CDict d => VDict d end.

(** A container below [stack_top] on the stack. The C code stores a child
    container into its parent when it opens it, under the key [stack_key]
    holds then; the parent is not touched while the child is open, so the
    model stores the child when it is closed, under that key. *)
Inductive Parent :=
| PList (items : list Value)
| PDict (items : list (string * Value)) (key : string).

Definition attach (p : Parent) (v : Value) : Cont :=
  match p with
  | PList l => CList (l ++ [v])
  | PDict d k => CDict (dict_store d k v)
  end.

(** What the [switch (cur)] of the main loop does with the character
    [cur] it has read: skip it, produce [next] (a value, or a container
    with [enter] set), close the open container, or fail. *)
Inductive Step :=
| StSkip (r : string)
| StNext (next : Value + Cont) (r : string)
| StClose (r : string)
| StFail
| StRaise (e : exn)
| StOutside.

Definition json_step (cur : ascii) (r : string) : Step :=
  if json_skip cur then StSkip r
  else if Ascii.eqb cur "n" then
    match strip "ull" r with Some r' => StNext (inl VNone) r' | None => StFail end
  else if Ascii.eqb cur "f" then
    match strip "alse" r with Some r' => StNext (inl (VBool false)) r' | None => StFail end
  else if Ascii.eqb cur "t" then
    match strip "rue" r with Some r' => StNext (inl (VBool true)) r' | None => StFail end
  else if Ascii.eqb cur DQ then
    match json_string r with
    | Some (str, r') => StNext (inl (VStr str)) r'
    | None => StFail
    end
  else if Ascii.eqb cur "-" || is_digit cur then
    let (tl, r') := num_tail r in
    if has_flt tl then StOutside
    else match parse_int10 (String cur tl) with
         | Ok z => StNext (inl (VInt z)) r'
         | Err e => StRaise e
         end
  else if Ascii.eqb cur "[" then StNext (inr (CList [])) r
  else if Ascii.eqb cur "{" then StNext (inr (CDict [])) r
  else if Ascii.eqb cur "]" || Ascii.eqb cur "}" then StClose r
  else StFail.

(** [S_END]: the end of the text, or a NUL character. *)
Definition s_end (s : string) : bool :=
  match s with EmptyString => true | String c _ => Ascii.eqb c NUL end.

Fixpoint skip_space (s : string) : string :=
  match s with
  | String c s' => if unichar_isspace c then skip_space s' else s
  | EmptyString => s
  end.

(** [success:]: skip [unichar_isspace] characters, then require [S_END]
    and exactly one object, with no container open below it. *)
Definition json_success (s : string) (top : option Value) (stack : list Parent)
  : option (Result Value) :=
  if s_end (skip_space s) then
    match top, stack with
    | Some v, [] => Some (Ok v)
    | _, _ => Some (Err json_error)
    end
  else Some (Err json_error).

(** The code after the [switch]: [next] goes to [stack_top], into the
    list, or into the dict (as the pending key, or under it); a container
    is then pushed. [loop] goes back to [cont:] on the text [r]. *)
Definition json_next
  (loop : string -> list Parent -> option Cont -> option Value -> option (Result Value))
  (r : string) (stack : list Parent) (stack_top : option Cont)
  (stack_key : option Value) (next : Value + Cont) : option (Result Value) :=
  match next, stack_top with
  | inl v, None => json_success r (Some v) stack
  | inr c, None => loop r stack (Some c) stack_key
  | inl v, Some (CList l) => loop r stack (Some (CList (l ++ [v]))) stack_key
  | inr c, Some (CList l) => loop r (PList l :: stack) (Some c) stack_key
  | inl v, Some (CDict d) =>
      match stack_key with
      | None => loop r stack stack_top (Some v)
      | Some (VStr k) => loop r stack (Some (CDict (dict_store d k v))) None
      | Some _ => None
      end
  | inr c, Some (CDict d) =>
      match stack_key with
      | None => Some (Err json_error)
      | Some (VStr k) => loop r (PDict d k :: stack) (Some c) None
      | Some _ => None
      end
  end.

(** The main loop from its [cont:] label, on the text still to read. Each
    pass reads one character, so the length of the text plus one passes
    always suffice ([fuel]). *)
Fixpoint json_loop (fuel : nat) (s : string) (stack : list Parent)
  (stack_top : option Cont) (stack_key : option Value) {struct fuel}
  : option (Result Value) :=
  match fuel with
  | O => None
  | S fuel' =>
      match s with
      | EmptyString => json_success s (option_map cont_value stack_top) stack
      | String cur r =>
          if Ascii.eqb cur NUL then
            json_success s (option_map cont_value stack_top) stack
          else
            match json_step cur r with
            | StSkip r' => json_loop fuel' r' stack stack_top stack_key
            | StNext next r' => json_next (json_loop fuel') r' stack stack_top stack_key next
            | StClose r' =>
                match stack_top with
                | None => Some (Err json_error)
                | Some c =>
                    match stack with
                    | [] => json_success r' (Some (cont_value c)) []
                    | p :: st =>
                        json_loop fuel' r' st (Some (attach p (cont_value c))) stack_key
                    end
                end
            | StFail => Some (Err json_error)
            | StRaise e => Some (Err e)
            | StOutside => None
            end
      end
  end.

Definition mod_json_load (b : bytes) : option (Result Value) :=
  json_loop (S (String.length b)) b [] None None.


(** One such decoder; the examples run it only on texts the model
    determines. *)
Definition json_loads_mp (b : bytes) : Result Value :=
  match mod_json_load b with Some r => r | None => Err json_error end.



(** ** The device and the runtime state

    A [read] on the bound channel returns what has arrived, at most the
    number of bytes asked: [rx] lists the successive arrivals, an empty
    chunk being a poll that finds no data; [ReadFault] is a read that raises
    [OSError]. [wfaults] says, call by call, whether a [write] or [flush]
    raises [OSError] (nothing written then); once it is exhausted the calls
    succeed. [ticks] is [time.ticks_ms()], [heap_free] is [gc.mem_free()],
    [slept] the milliseconds spent in [time.sleep_ms]. *)

Inductive Arrival := Chunk (data : bytes) | ReadFault.

Record World := mkWorld {
  rx : list Arrival;
  tx : bytes;
  wfaults : list bool;
  ticks : Z;
  heap_free : Z;
  slept : Z
}.

Definition set_rx (r : list Arrival) (w : World) : World :=
  mkWorld r (tx w) (wfaults w) (ticks w) (heap_free w) (slept w).
Definition set_tx (t : bytes) (w : World) : World :=
  mkWorld (rx w) t (wfaults w) (ticks w) (heap_free w) (slept w).
Definition set_wfaults (f : list bool) (w : World) : World :=
  mkWorld (rx w) (tx w) f (ticks w) (heap_free w) (slept w).
Definition set_slept (z : Z) (w : World) : World :=
  mkWorld (rx w) (tx w) (wfaults w) (ticks w) (heap_free w) z.

(** A statement either returns, raises, or spins forever in [read_n]'s
    busy-wait ([Hang]). *)
Inductive Outcome (A : Type) := Ret (a : A) | Raise (e : exn) | Hang.
Arguments Ret {A} a.
Arguments Raise {A} e.
Arguments Hang {A}.

Definition M (A : Type) : Type := World -> Outcome A * World.

Definition ret {A} (a : A) : M A := fun w => (Ret a, w).

Definition bind {A B} (m : M A) (f : A -> M B) : M B :=
  fun w =>
    match m w with
    | (Ret a, w') => f a w'
    | (Raise e, w') => (Raise e, w')
    | (Hang, w') => (Hang, w')
    end.

Notation "x <- m ;; k" := (bind m (fun x => k))
  (at level 61, m at next level, right associativity).
Notation "m ;;; k" := (bind m (fun _ => k))
  (at level 61, right associativity).

Definition raise {A} (e : exn) : M A := fun w => (Raise e, w).

(** [try: m except Exception as e: h(e)] *)
Definition try_except {A} (m : M A) (h : exn -> M A) : M A :=
  fun w =>
    match m w with
    | (Raise e, w') => h e w'
    | o => o
    end.

Definition of_result {A} (r : Result A) : M A :=
  match r with Ok a => ret a | Err e => raise e end.

Definition dev_oserror : exn := Exn OSError "[Errno 5] EIO".

Definition time_ticks_ms : M Z := fun w => (Ret (ticks w), w).
Definition time_sleep_ms (ms : Z) : M unit :=
  fun w => (Ret tt, set_slept (slept w + ms) w).
Definition gc_collect : M unit := ret tt.
Definition gc_mem_free : M Z := fun w => (Ret (heap_free w), w).

(** [dev.write(b)] and [dev.flush()] *)
Definition dev_write (b : bytes) : M unit :=
  fun w =>
    match wfaults w with
    | true :: f => (Raise dev_oserror, set_wfaults f w)
    | false :: f => (Ret tt, set_wfaults f (set_tx (tx w ++ b) w))
    | [] => (Ret tt, set_tx (tx w ++ b) w)
    end.

Definition dev_flush : M unit :=
  fun w =>
    match wfaults w with
    | true :: f => (Raise dev_oserror, set_wfaults f w)
    | false :: f => (Ret tt, set_wfaults f w)
    | [] => (Ret tt, w)
    end.

(** ** The program

    It is stated for any [json.loads]: [ujson]'s decoder is the parameter
    [json_loads], and [mp_decoder json_loads] says that it is MicroPython's
    [mod_json_load]. *)

Section Program.

Context (json_loads : bytes -> Result Value).

(** ** [usbproto.py] *)

(** [read_n]: [while len(buf) < n: chunk = dev.read(n - len(buf));
    if not chunk: continue; buf.extend(chunk)]. A chunk longer than what
    is missing is split: the read returns its head, the rest stays
    pending, and the buffer is then full, which ends the loop. *)
Fixpoint read_loop (r : list Arrival) (n : nat) (buf : bytes)
  : Outcome bytes * list Arrival :=
  if Nat.ltb (String.length buf) n then
    match r with
    | [] => (Hang, [])
    | ReadFault :: r' => (Raise dev_oserror, r')
    | Chunk c :: r' =>
        let k := n - String.length buf in
        match c with
        | EmptyString => read_loop r' n buf
        | _ =>
            if Nat.leb (String.length c) k then read_loop r' n (buf ++ c)
            else (Ret (buf ++ str_take k c), Chunk (str_drop k c) :: r')
        end
    end
  else (Ret buf, r).

Definition read_n (n : nat) : M bytes :=
  fun w => let (o, r') := read_loop (rx w) n "" in (o, set_rx r' w).

Definition recv_obj : M Value :=
  hdr <- read_n 4 ;;
  let length := unpack_be32 hdr in
  payload <- read_n (N.to_nat length) ;;
  of_result (json_loads payload).

Definition send_obj (obj : Value) : M unit :=
  let payload := dumps obj in
  let hdr := pack_be32 (N.of_nat (String.length payload)) in
  dev_write hdr ;;;
  dev_write payload ;;;
  dev_flush.

(** The bytes [send_obj] writes for a payload: header, then payload. *)
Definition frame (payload : bytes) : bytes :=
  pack_be32 (N.of_nat (String.length payload)) ++ payload.

(** ** [main.py] *)

Definition VERSION : string := "0.1.0".

(** [str(x)] / [repr(x)] as MicroPython prints them; [repr] of a string
    picks its quote as [mp_str_print_quoted] does. *)
Fixpoint has_char (c : ascii) (s : string) : bool :=
  match s with
  | String c' s' => Ascii.eqb c c' || has_char c s'
  | EmptyString => false
  end.

Definition repr_char (q c : ascii) : string :=
  let n := N_of_ascii c in
  if Ascii.eqb c q || Ascii.eqb c "\" then String "\" (String c "")
  else if (32 <=? n)%N && negb (n =? 127)%N then String c ""
  else if Ascii.eqb c "010" then "\n"
  else if Ascii.eqb c "013" then "\r"
  else if Ascii.eqb c "009" then "\t"
  else String "\" (String "x"
         (String (hex_char (n / 16)) (String (hex_char (n mod 16)) ""))).

Fixpoint repr_chars (q : ascii) (s : string) : string :=
  match s with
  | String c s' => repr_char q c ++ repr_chars q s'
  | EmptyString => ""
  end.

Definition str_repr (s : string) : string :=
  let q := if has_char "'"%char s && negb (has_char DQ s)
           then DQ else "'"%char in
  String q (repr_chars q s ++ String q "").

Fixpoint py_repr (v : Value) : string :=
  match v with
  | VNone => "None"
  | VBool true => "True"
  | VBool false => "False"
  | VInt z => int_repr z
  | VFloat f => flt_text f
  | VStr s => str_repr s
  | VList l => "[" ++ join ", " (map py_repr l) ++ "]"
  | VDict d =>
      "{" ++ join ", " (map (fun '(k, x) => str_repr k ++ ": " ++ py_repr x) d) ++ "}"
  end.

Definition py_str (v : Value) : string :=
  match v with VStr s => s | _ => py_repr v end.

Definition type_name (v : Value) : string :=
  match v with
  | VNone => "NoneType" | VBool _ => "bool" | VInt _ => "int"
  | VFloat _ => "float" | VStr _ => "str" | VList _ => "list" | VDict _ => "dict"
  end.

(** [d.get(k)]: the value stored under [k], or [None]. *)
Fixpoint dict_get (d : list (string * Value)) (k : string) : Value :=
  match d with
  | [] => VNone
  | (k', v) :: r => if String.eqb k k' then v else dict_get r k
  end.

(** [t == "<name>"] for a JSON value [t]. *)
Definition is_str (t : Value) (name : string) : bool :=
  match t with VStr s => String.eqb s name | _ => false end.

Definition dispatch (req : Value) : M Value :=
  match req with
  | VDict d =>
      let t := dict_get d "type" in
      if is_str t "ping" then
        ts <- time_ticks_ms ;;
        ret (VDict [("type", VStr "pong"); ("ts", VInt ts);
                    ("version", VStr VERSION)])
      else if is_str t "get_status" then
        gc_collect ;;;
        up <- time_ticks_ms ;;
        hf <- gc_mem_free ;;
        ret (VDict [("type", VStr "status"); ("uptime_ms", VInt up);
                    ("heap_free", VInt hf); ("version", VStr VERSION)])
      else if is_str t "echo" then
        ret (VDict [("type", VStr "echo"); ("data", dict_get d "data")])
      else
        ret (VDict [("type", VStr "error"); ("code", VStr "UNKNOWN_CMD");
                    ("message", VStr ("Unknown command: " ++ py_str t))])
  | _ =>
      raise (Exn AttributeError
               ("'" ++ type_name req ++ "' object has no attribute 'get'"))
  end.

(** *** [Transport.__init__]

    [usb_cdc] is [None] when its import fails; its [data] and [console]
    attributes may be missing, set to [None], or a serial channel. *)
Inductive Channel :=
| UsbData
| UsbConsole
| Uart (id baudrate tx_pin rx_pin : Z).

Inductive Attr := Missing | AttrNone | Present.

Record UsbCdc := mkUsbCdc { cdc_data : Attr; cdc_console : Attr }.

(** [getattr(obj, name, None)] *)
Definition getattr_default (a : Attr) (c : Channel) : option Channel :=
  match a with Present => Some c | _ => None end.

(** [obj.name]: a missing attribute raises [AttributeError]. *)
Definition getattr_strict (a : Attr) (c : Channel) : Result (option Channel) :=
  match a with
  | Missing => Err (Exn AttributeError "'module' object has no attribute")
  | AttrNone => Ok None
  | Present => Ok (Some c)
  end.

Record Transport := mkTransport { dev : Channel }.

Definition Transport_init (usb_cdc : option UsbCdc) : Transport :=
  let dev0 :=
    match usb_cdc with
    | None => None
    | Some m =>
        let attempt :=
          match getattr_default (cdc_data m) UsbData with
          | Some d => Ok (Some d)
          | None => getattr_strict (cdc_console m) UsbConsole
          end in
        match attempt with
        | Ok d => d
        | Err _ => getattr_default (cdc_console m) UsbConsole
        end
    end in
  match dev0 with
  | Some d => mkTransport d
  | None => mkTransport (Uart 0 115200 0 1)
  end.

(** The I/O of [World] is that of [t.dev]. *)
Definition read_obj (t : Transport) : M Value := recv_obj.
Definition write_obj (t : Transport) (obj : Value) : M unit := send_obj obj.

Definition exc_resp (e : exn) : Value :=
  VDict [("type", VStr "error"); ("code", VStr "EXC");
         ("message", VStr (exc_msg e))].

(** One pass of [while True:] in [main]. *)
Definition main_iter (t : Transport) : M unit :=
  try_except
    (req <- read_obj t ;;
     resp <- dispatch req ;;
     write_obj t resp)
    (fun e => try_except (write_obj t (exc_resp e)) (fun _ => ret tt)).

Fixpoint serve (t : Transport) (n : nat) : M unit :=
  match n with
  | O => ret tt
  | S n' => main_iter t ;;; serve t n'
  end.

(** [main()], observed over its first [n] iterations. *)
Definition main (usb_cdc : option UsbCdc) (n : nat) : M unit :=
  let t := Transport_init usb_cdc in
  serve t n.

(** ** [boot.py] *)

Definition MAINT_FLAG : string := "MAINTENANCE".

(** Flash storage: the root directory's entries, and whether [listdir] or
    [remove] fail (e.g. a read-only mount); MicroPython's VFS reports its
    failures as [OSError]. *)
Record Storage := mkStorage {
  st_files : list string;
  listdir_fails : bool;
  remove_fails : bool
}.

Definition os_listdir (st : Storage) : Result (list string) :=
  if listdir_fails st then Err (Exn OSError "[Errno 5] EIO") else Ok (st_files st).

Definition os_remove (st : Storage) (name : string) : Result Storage :=
  if remove_fails st then Err (Exn OSError "[Errno 30] EROFS")
  else Ok (mkStorage (filter (fun f => negb (String.eqb f name)) (st_files st))
             (listdir_fails st) (remove_fails st)).

(** [MAINT_PIN.value()]: a level, or a fault raising an exception. *)
Inductive PinRead := PinLevel (v : Z) | PinFault.

Definition in_maintenance (st : Storage) (pin : PinRead) : bool * Storage :=
  let flag_check :=
    match os_listdir st with
    | Ok names =>
        if existsb (String.eqb MAINT_FLAG) names then
          match os_remove st MAINT_FLAG with
          | Ok st' => Some (true, st')
          | Err _ => Some (true, st)
          end
        else None
    | Err _ => None
    end in
  match flag_check with
  | Some r => r
  | None =>
      match pin with
      | PinLevel v => ((v =? 0)%Z, st)
      | PinFault => (false, st)
      end
  end.

(** The module body of [boot.py]: in production, [os.dupterm(None, 0)]
    detaches the REPL from the USB serial port; an exception it raises is
    ignored. The result is the storage after boot and whether the REPL is
    still attached. *)
Definition boot_script (st : Storage) (pin : PinRead) (dupterm_fails : bool)
  : Storage * bool :=
  let (maint, st') := in_maintenance st pin in
  if negb maint then (st', dupterm_fails) else (st', true).

(** ** Auxiliary notions of the proofs *)

(** The pending input after a read: a non-empty remainder of the chunk
    stays in front of the later arrivals. *)
Definition data_cons (s : bytes) (r : list Arrival) : list Arrival :=
  match s with EmptyString => r | _ => Chunk s :: r end.

Definition to_outcome {A} (r : Result A) : Outcome A :=
  match r with Ok a => Ret a | Err e => Raise e end.

(** The response the loop writes for a request payload [p]. *)
Definition response (w : World) (p : bytes) : Value :=
  match json_loads p with
  | Err e => exc_resp e
  | Ok req =>
      match fst (dispatch req w) with
      | Ret resp => resp
      | Raise e => exc_resp e
      | Hang => VNone
      end
  end.

Fixpoint all_digits (s : string) : bool :=
  match s with
  | EmptyString => true
  | String c s' => is_digit c && all_digits s'
  end.










(** The bytes of the frames of successive payloads, back to back. *)
Fixpoint frames (ps : list bytes) : bytes :=
  match ps with
  | [] => ""
  | p :: ps' => frame p ++ frames ps'
  end.

(** A statement that spends no time in [time.sleep_ms]. *)
Definition keeps_slept {A} (m : M A) : Prop :=
  forall w, slept (snd (m w)) = slept w.

(** The boot decision in the order the specification gives: the flag
    first (a failing probe counting as no flag), then the pin (a failing
    read counting as high), [Production] otherwise; an observed flag is
    deleted when storage lets it. *)
Inductive BootMode := Maintenance | Production.

Definition mode_of (b : bool) : BootMode := if b then Maintenance else Production.

Definition flag_probe (st : Storage) : option bool :=
  if listdir_fails st then None
  else Some (existsb (String.eqb MAINT_FLAG) (st_files st)).

Definition pin_probe (pin : PinRead) : option bool :=
  match pin with PinLevel v => Some (v =? 0)%Z | PinFault => None end.

Definition delete_flag (st : Storage) : Storage :=
  if remove_fails st then st
  else mkStorage (filter (fun f => negb (String.eqb f MAINT_FLAG)) (st_files st))
         (listdir_fails st) (remove_fails st).

Definition boot_decision_spec (st : Storage) (pin : PinRead) : BootMode * Storage :=
  match flag_probe st with
  | Some true => (Maintenance, delete_flag st)
  | _ =>
      match pin_probe pin with
      | Some true => (Maintenance, st)
      | _ => (Production, st)
      end
  end.

(** The channel the specification's priority order picks: the data
    channel, else the console, else UART 0 at 115200 baud on pins 0/1. *)
Definition available (a : Attr) : bool :=
  match a with Present => true | _ => false end.

Definition select_spec (usb_cdc : option UsbCdc) : Channel :=
  match usb_cdc with
  | Some m =>
      if available (cdc_data m) then UsbData
      else if available (cdc_console m) then UsbConsole
      else Uart 0 115200 0 1
  | None => Uart 0 115200 0 1
  end.

(** What [dispatch] answers to [enter_maintenance]. *)
Definition enter_maintenance_resp : Value :=
  VDict [("type", VStr "error"); ("code", VStr "UNKNOWN_CMD");
         ("message", VStr "Unknown command: enter_maintenance")].

(** A payload one byte over the 65536-byte receive limit. *)
Definition oversize_payload : bytes := str_repeat (N.to_nat 65537) "a".

(** The bytes of successive chunks, in order. *)
Fixpoint concat_bytes (cs : list bytes) : bytes :=
  match cs with
  | [] => ""
  | c :: cs' => c ++ concat_bytes cs'
  end.

(** * Proofs *)

(** ** Strings *)

Lemma str_app_assoc (a b c : string) : (a ++ b) ++ c = a ++ (b ++ c).
Proof. induction a as [|x a IH]; simpl; [reflexivity | now rewrite IH]. Qed.

Lemma str_app_nil_r (a : string) : a ++ "" = a.
Proof. induction a as [|x a IH]; simpl; [reflexivity | now rewrite IH]. Qed.

Lemma str_length_app (a b : string) :
  String.length (a ++ b) = String.length a + String.length b.
Proof. induction a as [|x a IH]; simpl; [reflexivity | now rewrite IH]. Qed.

Lemma str_take_app (a b : string) : str_take (String.length a) (a ++ b) = a.
Proof. induction a as [|x a IH]; simpl; [reflexivity | now rewrite IH]. Qed.

Lemma str_drop_app (a b : string) : str_drop (String.length a) (a ++ b) = b.
Proof. induction a as [|x a IH]; simpl; [reflexivity | exact IH]. Qed.

(** ** The length header *)

Lemma N_of_byte_at (n s : N) :
  N_of_ascii (byte_at n s) = ((n / 2 ^ s) mod 256)%N.
Proof.
  unfold byte_at.
  rewrite N.shiftr_div_pow2.
  change 255%N with (N.ones 8). rewrite N.land_ones.
  apply N_ascii_embedding.
  apply N.mod_lt. discriminate.
Qed.

Lemma unpack_pack (n : N) (rest : bytes) :
  (n < 2 ^ 32)%N -> unpack_be32 (pack_be32 n ++ rest) = n.
Proof.
  intro Hn. cbn [pack_be32 unpack_be32 String.append].
  rewrite !N_of_byte_at.
  change (2 ^ 24)%N with 16777216%N. change (2 ^ 16)%N with 65536%N.
  change (2 ^ 8)%N with 256%N. change (2 ^ 0)%N with 1%N.
  change (2 ^ 32)%N with 4294967296%N in Hn.
  rewrite N.div_1_r.
  pose proof (N.div_mod n 16777216 ltac:(discriminate)) as E24.
  pose proof (N.mod_lt n 16777216 ltac:(discriminate)) as B24.
  pose proof (N.div_mod n 65536 ltac:(discriminate)) as E16.
  pose proof (N.div_mod n 256 ltac:(discriminate)) as E8.
  pose proof (N.div_mod (n / 65536) 256 ltac:(discriminate)) as E16'.
  pose proof (N.div_mod (n / 256) 256 ltac:(discriminate)) as E8'.
  pose proof (N.div_mod n 16777216 ltac:(discriminate)) as E24'.
  assert (Q24 : (n / 16777216 < 256)%N) by (apply N.Div0.div_lt_upper_bound; lia).
  rewrite (N.mod_small (n / 16777216) 256 Q24).
  rewrite (N.Div0.div_div n 256 256) in * by discriminate.
  rewrite (N.Div0.div_div n 65536 256) in * by discriminate.
  change (256 * 256)%N with 65536%N in *.
  change (65536 * 256)%N with 16777216%N in *.
  lia.
Qed.

Lemma unpack_pack0 (n : N) : (n < 2 ^ 32)%N -> unpack_be32 (pack_be32 n) = n.
Proof.
  intro Hn. pose proof (unpack_pack n "" Hn) as E. exact E.
Qed.

Lemma pack_length (n : N) : String.length (pack_be32 n) = 4.
Proof. reflexivity. Qed.

(** ** [read_n] on data that has already arrived *)

Lemma read_loop_done (r : list Arrival) (n : nat) (buf : bytes) :
  Nat.ltb (String.length buf) n = false -> read_loop r n buf = (Ret buf, r).
Proof. intro H. destruct r; simpl; rewrite H; reflexivity. Qed.

Lemma read_n_exact (xs ys : bytes) (r : list Arrival) (w : World) :
  rx w = data_cons (xs ++ ys) r ->
  read_n (String.length xs) w = (Ret xs, set_rx (data_cons ys r) w).
Proof.
  intro Hrx. unfold read_n. rewrite Hrx.
  destruct xs as [|a xs'].
  - simpl. rewrite read_loop_done by reflexivity. reflexivity.
  - cbn [data_cons String.append].
    simpl read_loop.
    destruct ys as [|b ys'].
    + rewrite str_app_nil_r, Nat.leb_refl.
      rewrite read_loop_done by (apply Nat.ltb_irrefl). reflexivity.
    + assert (Hlen : Nat.leb (String.length (xs' ++ String b ys'))
                       (String.length xs') = false).
      { apply Nat.leb_gt. rewrite str_length_app. simpl. lia. }
      rewrite Hlen, str_take_app, str_drop_app. reflexivity.
Qed.

(** ** [recv_obj] and [send_obj] on whole frames *)

Lemma recv_obj_frame (p rest : bytes) (r : list Arrival) (w : World) :
  (N.of_nat (String.length p) < 2 ^ 32)%N ->
  rx w = data_cons (frame p ++ rest) r ->
  recv_obj w = (to_outcome (json_loads p), set_rx (data_cons rest r) w).
Proof.
  intros Hlen Hrx. unfold recv_obj, bind.
  unfold frame in Hrx. rewrite str_app_assoc in Hrx.
  rewrite <- (pack_length (N.of_nat (String.length p))).
  rewrite (read_n_exact _ _ _ _ Hrx).
  cbv beta iota.
  rewrite unpack_pack0 by exact Hlen.
  rewrite Nat2N.id.
  rewrite (read_n_exact p rest r) by reflexivity.
  destruct (json_loads p); reflexivity.
Qed.

Lemma send_obj_ok (v : Value) (w : World) :
  wfaults w = [] ->
  send_obj v w = (Ret tt, set_tx (tx w ++ frame (dumps v)) w).
Proof.
  intro Hf. unfold send_obj, bind, dev_write, dev_flush, frame, set_tx.
  rewrite Hf. cbn. rewrite str_app_assoc. reflexivity.
Qed.

(** ** The dispatcher only reads the clock and the heap counter *)

Lemma dispatch_world (v : Value) (w : World) :
  dispatch v w = (fst (dispatch v w), w).
Proof.
  destruct v; try reflexivity.
  unfold dispatch.
  destruct (is_str _ "ping"); [reflexivity|].
  destruct (is_str _ "get_status"); [reflexivity|].
  destruct (is_str _ "echo"); reflexivity.
Qed.

Lemma dispatch_ext (v : Value) (w w' : World) :
  ticks w = ticks w' -> heap_free w = heap_free w' ->
  fst (dispatch v w) = fst (dispatch v w').
Proof.
  intros Ht Hh. destruct v; try reflexivity.
  unfold dispatch.
  destruct (is_str _ "ping"); [simpl; now rewrite Ht|].
  destruct (is_str _ "get_status"); [simpl; now rewrite Ht, Hh|].
  destruct (is_str _ "echo"); reflexivity.
Qed.

Lemma dispatch_no_hang (v : Value) (w : World) : fst (dispatch v w) <> Hang.
Proof.
  destruct v; try discriminate.
  unfold dispatch.
  destruct (is_str _ "ping"); [discriminate|].
  destruct (is_str _ "get_status"); [discriminate|].
  destruct (is_str _ "echo"); discriminate.
Qed.

Lemma response_ext (w w' : World) (p : bytes) :
  ticks w = ticks w' -> heap_free w = heap_free w' ->
  response w p = response w' p.
Proof.
  intros Ht Hh. unfold response.
  destruct (json_loads p); [|reflexivity].
  now rewrite (dispatch_ext a w w' Ht Hh).
Qed.

(** One iteration on a complete request frame, with a channel whose writes
    succeed: the frame is consumed and exactly one response frame is
    written. *)
Lemma main_iter_frame (t : Transport) (p rest : bytes) (r : list Arrival)
  (w : World) :
  wfaults w = [] ->
  (N.of_nat (String.length p) < 2 ^ 32)%N ->
  rx w = data_cons (frame p ++ rest) r ->
  main_iter t w =
    (Ret tt, set_tx (tx w ++ frame (dumps (response w p)))
               (set_rx (data_cons rest r) w)).
Proof.
  intros Hf Hlen Hrx.
  unfold main_iter, try_except, bind, read_obj, write_obj.
  rewrite (recv_obj_frame p rest r w Hlen Hrx).
  unfold response.
  destruct (json_loads p) as [req|e]; simpl.
  - rewrite dispatch_world.
    rewrite (dispatch_ext req (set_rx (data_cons rest r) w) w) by reflexivity.
    pose proof (dispatch_no_hang req w) as NH.
    destruct (fst (dispatch req w)) as [resp|e|]; [| |contradiction].
    + rewrite send_obj_ok by exact Hf. reflexivity.
    + rewrite send_obj_ok by exact Hf. reflexivity.
  - rewrite send_obj_ok by exact Hf. reflexivity.
Qed.

(** ** [json.loads] inverts [json.dumps] *)

(** *** Integers *)

Lemma N_of_digit_char (d : N) : (d < 10)%N -> N_of_ascii (digit_char d) = (48 + d)%N.
Proof. intro H. unfold digit_char. apply N_ascii_embedding. lia. Qed.

Lemma is_digit_digit_char (d : N) : (d < 10)%N -> is_digit (digit_char d) = true.
Proof.
  intro H. unfold is_digit. rewrite N_of_digit_char by exact H.
  apply andb_true_intro; split; apply N.leb_le; lia.
Qed.

Lemma n_digits_all_digits (fuel : nat) (n : N) (acc : string) :
  all_digits acc = true -> all_digits (n_digits fuel n acc) = true.
Proof.
  revert n acc. induction fuel as [|f IH]; intros n acc H; simpl; [exact H|].
  assert (Hd : all_digits (String (digit_char (n mod 10)) acc) = true).
  { simpl. rewrite is_digit_digit_char, H by (apply N.mod_lt; discriminate).
    reflexivity. }
  destruct (n <? 10)%N; [exact Hd | exact (IH _ _ Hd)].
Qed.

Lemma n_digits_length (fuel : nat) (n : N) (acc : string) :
  String.length acc <= String.length (n_digits fuel n acc).
Proof.
  revert n acc. induction fuel as [|f IH]; intros n acc; simpl; [lia|].
  destruct (n <? 10)%N; simpl; [lia|].
  specialize (IH (n / 10)%N (String (digit_char (n mod 10)) acc)). simpl in IH. lia.
Qed.





Lemma n_repr_shape (n : N) :
  exists c t, n_repr n = String c t /\ is_digit c = true /\ all_digits t = true.
Proof.
  unfold n_repr.
  pose proof (n_digits_length (S (N.to_nat (N.log2 n))) n "") as HL.
  pose proof (n_digits_all_digits (S (N.to_nat (N.log2 n))) n "" eq_refl) as HD.
  simpl in HL. cbn [n_digits] in *.
  destruct (n <? 10)%N.
  - simpl in HD. exists (digit_char (n mod 10)), "". simpl.
    apply andb_prop in HD as [H1 H2]. auto.
  - pose proof (n_digits_length (N.to_nat (N.log2 n)) (n / 10)
                  (String (digit_char (n mod 10)) "")) as HL'.
    destruct (n_digits (N.to_nat (N.log2 n)) (n / 10) (String (digit_char (n mod 10)) ""))
      as [|c t]; simpl in HL'; [lia|].
    simpl in HD. apply andb_prop in HD as [H1 H2]. exists c, t. auto.
Qed.



(** ** [json.loads] reads back what [json.dumps] writes *)

(** *** String bodies *)


Lemma cons_fst_app (a b : string) (o : option (string * string)) :
  cons_fst a (cons_fst b o) = cons_fst (a ++ b) o.
Proof. destruct o as [[t r]|]; simpl; [now rewrite str_app_assoc|reflexivity]. Qed.


(** *** Token ends and first characters *)






(** *** The main loop *)


















Lemma dumps_head (v : Value) : exists c t, dumps v = String c t.
Proof.
  destruct v as [| [] | z | fl | s | l | d]; simpl;
    try (eexists _, _; reflexivity).
  - unfold int_repr. destruct (z <? 0)%Z; [eexists _, _; reflexivity|].
    destruct (n_repr_shape (Z.to_N z)) as (c & t & -> & _). eauto.
Qed.

Lemma send_obj_total (v : Value) (w : World) : fst (send_obj v w) <> Hang.
Proof.
  intro H. destruct w as [rx0 tx0 f0 t0 h0 s0].
  unfold send_obj, bind, dev_write, dev_flush, set_tx, set_wfaults in H. cbn in H.
  destruct f0 as [|[] f1]; cbn in H; try discriminate H.
  destruct f1 as [|[] f2]; cbn in H; try discriminate H.
  destruct f2 as [|[] f3]; cbn in H; discriminate H.
Qed.

Lemma send_obj_swallowed (v : Value) (w : World) :
  try_except (send_obj v) (fun _ => ret tt) w = (Ret tt, snd (send_obj v w)).
Proof.
  unfold try_except. pose proof (send_obj_total v w) as NH.
  destruct (send_obj v w) as [[[]|e|] w']; [reflexivity|reflexivity|contradiction].
Qed.

Lemma main_iter_outcome (t : Transport) (w : World) :
  fst (main_iter t w) = Ret tt \/ fst (main_iter t w) = Hang.
Proof.
  unfold main_iter, try_except, write_obj.
  destruct ((req <- read_obj t ;; resp <- dispatch req ;; send_obj resp) w)
    as [[[]|e|] w'].
  - left. reflexivity.
  - left. pose proof (send_obj_total (exc_resp e) w') as NH.
    destruct (send_obj (exc_resp e) w') as [[[]|e2|] w2];
      [reflexivity|reflexivity|contradiction].
  - right. reflexivity.
Qed.

Lemma serve_outcome (t : Transport) (n : nat) (w : World) :
  fst (serve t n w) = Ret tt \/ fst (serve t n w) = Hang.
Proof.
  revert w. induction n as [|n IH]; intro w; [now left|].
  cbn [serve]. unfold bind.
  pose proof (main_iter_outcome t w) as H.
  destruct (main_iter t w) as [[[]|e|] w']; simpl in H.
  - apply IH.
  - destruct H; discriminate.
  - now right.
Qed.

Lemma keeps_ret {A} (a : A) : keeps_slept (ret a).
Proof. intro w. reflexivity. Qed.

Lemma keeps_raise {A} (e : exn) : keeps_slept (@raise A e).
Proof. intro w. reflexivity. Qed.

Lemma keeps_bind {A B} (m : M A) (f : A -> M B) :
  keeps_slept m -> (forall a, keeps_slept (f a)) -> keeps_slept (bind m f).
Proof.
  intros Hm Hf w. unfold bind. specialize (Hm w).
  destruct (m w) as [[a|e|] w'] eqn:E; simpl in Hm |- *; try exact Hm.
  now rewrite Hf.
Qed.

Lemma keeps_try {A} (m : M A) (h : exn -> M A) :
  keeps_slept m -> (forall e, keeps_slept (h e)) -> keeps_slept (try_except m h).
Proof.
  intros Hm Hh w. unfold try_except. specialize (Hm w).
  destruct (m w) as [[a|e|] w'] eqn:E; simpl in Hm |- *; try exact Hm.
  now rewrite Hh.
Qed.

Lemma keeps_of_result {A} (r : Result A) : keeps_slept (of_result r).
Proof. destruct r; intro w; reflexivity. Qed.

Lemma keeps_read_n (n : nat) : keeps_slept (read_n n).
Proof. intro w. unfold read_n. destruct (read_loop _ _ _). reflexivity. Qed.

Lemma keeps_dev_write (b : bytes) : keeps_slept (dev_write b).
Proof. intro w. unfold dev_write. destruct (wfaults w) as [|[] f]; reflexivity. Qed.

Lemma keeps_dev_flush : keeps_slept dev_flush.
Proof. intro w. unfold dev_flush. destruct (wfaults w) as [|[] f]; reflexivity. Qed.

Lemma keeps_dispatch (v : Value) : keeps_slept (dispatch v).
Proof. intro w. now rewrite dispatch_world. Qed.

Lemma keeps_recv_obj : keeps_slept recv_obj.
Proof.
  unfold recv_obj. apply keeps_bind; [apply keeps_read_n|intro hdr].
  apply keeps_bind; [apply keeps_read_n|intro payload]. apply keeps_of_result.
Qed.

Lemma keeps_send_obj (v : Value) : keeps_slept (send_obj v).
Proof.
  unfold send_obj. apply keeps_bind; [apply keeps_dev_write|intros _].
  apply keeps_bind; [apply keeps_dev_write|intros _]. apply keeps_dev_flush.
Qed.

Lemma keeps_main_iter (t : Transport) : keeps_slept (main_iter t).
Proof.
  unfold main_iter. apply keeps_try.
  - apply keeps_bind; [apply keeps_recv_obj|intro req].
    apply keeps_bind; [apply keeps_dispatch|intro resp]. apply keeps_send_obj.
  - intro e. apply keeps_try; [apply keeps_send_obj|intros _; apply keeps_ret].
Qed.

Lemma keeps_serve (t : Transport) (n : nat) : keeps_slept (serve t n).
Proof.
  induction n as [|n IH]; [apply keeps_ret|].
  apply keeps_bind; [apply keeps_main_iter|intros _; exact IH].
Qed.

Lemma serve_frames (t : Transport) (ps : list bytes) :
  Forall (fun p => N.of_nat (String.length p) < 2 ^ 32)%N ps ->
  forall rest r w,
  wfaults w = [] ->
  rx w = data_cons (frames ps ++ rest) r ->
  serve t (length ps) w =
    (Ret tt, set_tx (tx w ++ frames (map (fun p => dumps (response w p)) ps))
               (set_rx (data_cons rest r) w)).
Proof.
  induction 1 as [|p ps Hp Hps IH]; intros rest r w Hf Hrx.
  - destruct w as [rx0 tx0 f0 t0 h0 s0]. simpl in Hrx |- *.
    unfold set_tx, set_rx. simpl. rewrite str_app_nil_r. now rewrite Hrx.
  - cbn [serve length]. unfold bind.
    rewrite (main_iter_frame t p (frames ps ++ rest) r w Hf Hp)
      by (rewrite Hrx; cbn [frames]; now rewrite str_app_assoc).
    rewrite (IH rest r) by (simpl; assumption || reflexivity).
    cbn [map frames].
    rewrite (map_ext (fun p0 => dumps (response _ p0))
                     (fun p0 => dumps (response w p0)))
      by (intro q; now rewrite (response_ext _ w q)).
    destruct w as [rx0 tx0 f0 t0 h0 s0].
    unfold set_tx, set_rx. simpl. now rewrite str_app_assoc.
Qed.

Lemma try_except_raise {A} (m : M A) (h : exn -> M A) (w w' : World) (e : exn) :
  m w = (Raise e, w') -> try_except m h w = h e w'.
Proof. intro H. unfold try_except. now rewrite H. Qed.

Lemma not_in_filtered (files : list string) :
  existsb (String.eqb MAINT_FLAG)
    (filter (fun f => negb (String.eqb f MAINT_FLAG)) files) = false.
Proof.
  induction files as [|f fs IH]; [reflexivity|].
  cbn [filter]. destruct (String.eqb f MAINT_FLAG) eqn:E; cbn [negb existsb];
    [exact IH|].
  rewrite IH, orb_false_r. rewrite String.eqb_sym. exact E.
Qed.

Lemma in_maintenance_flag (st : Storage) (pin : PinRead) :
  listdir_fails st = false ->
  existsb (String.eqb MAINT_FLAG) (st_files st) = true ->
  in_maintenance st pin = (true, delete_flag st).
Proof.
  intros Hl He. unfold in_maintenance, os_listdir, os_remove, delete_flag.
  rewrite Hl, He. now destruct (remove_fails st).
Qed.

Lemma in_maintenance_noflag (st : Storage) (pin : PinRead) :
  listdir_fails st = false ->
  existsb (String.eqb MAINT_FLAG) (st_files st) = false ->
  in_maintenance st pin =
    (match pin with PinLevel v => (v =? 0)%Z | PinFault => false end, st).
Proof.
  intros Hl He. unfold in_maintenance, os_listdir. rewrite Hl, He.
  now destruct pin.
Qed.
Lemma str_app_split (a b c d : string) :
  a ++ b = c ++ d -> String.length a <= String.length c ->
  exists m, c = a ++ m /\ b = m ++ d.
Proof.
  revert c. induction a as [|x a IH]; intros c E Hl.
  - exists c. split; [reflexivity | exact E].
  - destruct c as [|y c]; simpl in Hl; [lia|].
    simpl in E. injection E as Hxy E. subst y.
    destruct (IH c E ltac:(lia)) as [m [Hc Hb]].
    exists m. split; [now rewrite Hc | exact Hb].
Qed.

Lemma read_loop_step (c : bytes) (r : list Arrival) (n : nat) (buf : bytes) :
  Nat.ltb (String.length buf) n = true ->
  read_loop (Chunk c :: r) n buf =
    match c with
    | EmptyString => read_loop r n buf
    | _ =>
        if Nat.leb (String.length c) (n - String.length buf)
        then read_loop r n (buf ++ c)
        else (Ret (buf ++ str_take (n - String.length buf) c),
              Chunk (str_drop (n - String.length buf) c) :: r)
    end.
Proof. intro H. cbn [read_loop]. rewrite H. reflexivity. Qed.


Lemma read_loop_nil (n : nat) (buf : bytes) :
  Nat.ltb (String.length buf) n = true -> read_loop [] n buf = (Hang, []).
Proof. intro H. cbn [read_loop]. rewrite H. reflexivity. Qed.

Lemma read_loop_chunks (cs : list bytes) (r0 : list Arrival) :
  forall buf xs ys, concat_bytes cs = xs ++ ys ->
  exists cs',
    read_loop ((map Chunk cs ++ r0)%list) (String.length buf + String.length xs) buf
      = (Ret (buf ++ xs), (map Chunk cs' ++ r0)%list) /\
    concat_bytes cs' = ys.
Proof.
  induction cs as [|c cs IH]; intros buf xs ys H.
  - destruct xs; [|discriminate]. destruct ys; [|discriminate].
    exists []. rewrite read_loop_done by (apply Nat.ltb_ge; simpl; lia).
    now rewrite str_app_nil_r.
  - destruct xs as [|x xs'] eqn:Ex.
    + exists (c :: cs). rewrite read_loop_done by (apply Nat.ltb_ge; simpl; lia).
      rewrite str_app_nil_r. split; [reflexivity | exact H].
    + rewrite <- Ex in *. cbn [map List.app].
      rewrite read_loop_step by (apply Nat.ltb_lt; subst xs; simpl; lia).
      replace (String.length buf + String.length xs - String.length buf)
        with (String.length xs) by lia.
      destruct c as [|a c'] eqn:Ec.
      * exact (IH buf xs ys H).
      * rewrite <- Ec in *. simpl concat_bytes in H.
        destruct (Nat.leb (String.length c) (String.length xs)) eqn:Hle.
        -- apply Nat.leb_le in Hle.
           destruct (str_app_split c (concat_bytes cs) xs ys H Hle) as [m [Hx Hm]].
           destruct (IH (buf ++ c) m ys Hm) as [cs' [E Hc]].
           exists cs'. split; [|exact Hc].
           replace (String.length buf + String.length xs)
             with (String.length (buf ++ c) + String.length m)
             by (rewrite Hx, !str_length_app; lia).
           rewrite E, Hx, str_app_assoc. reflexivity.
        -- apply Nat.leb_gt in Hle.
           destruct (str_app_split xs ys c (concat_bytes cs) (eq_sym H) ltac:(lia))
             as [m [Hc Hy]].
           exists (m :: cs). split; [|exact (eq_sym Hy)].
           rewrite Hc, str_take_app, str_drop_app. reflexivity.
Qed.

Lemma read_loop_short (cs : list bytes) (r0 : list Arrival) (n : nat) :
  forall buf, String.length buf + String.length (concat_bytes cs) < n ->
  read_loop ((map Chunk cs ++ r0)%list) n buf = read_loop r0 n (buf ++ concat_bytes cs).
Proof.
  induction cs as [|c cs IH]; intros buf Hl.
  - simpl. now rewrite str_app_nil_r.
  - cbn [map List.app concat_bytes] in *. rewrite str_length_app in Hl.
    rewrite read_loop_step by (apply Nat.ltb_lt; lia).
    destruct c as [|a c'] eqn:Ec.
    + apply IH. exact Hl.
    + rewrite <- Ec in *.
      replace (Nat.leb (String.length c) (n - String.length buf)) with true
        by (symmetry; apply Nat.leb_le; lia).
      rewrite IH by (rewrite str_length_app; lia).
      now rewrite str_app_assoc.
Qed.


(** ** Passes that reach [dispatch] *)




(** * The claims *)

(** C1 (code bug): [recv_obj] checks no declared length. A header
    declaring more than 65536 bytes (any length below 2^32) is read as
    that length, and [recv_obj] consumes exactly that many bytes as the
    payload and hands them to [json.loads]: the frame is not rejected and
    the payload is not left on the channel. *)
Theorem recv_obj_accepts_oversize (p rest : bytes) (r : list Arrival) (w : World) :
  (65536 < N.of_nat (String.length p))%N ->
  (N.of_nat (String.length p) < 2 ^ 32)%N ->
  rx w = data_cons (frame p ++ rest) r ->
  unpack_be32 (frame p) = N.of_nat (String.length p) /\
  recv_obj w = (to_outcome (json_loads p), set_rx (data_cons rest r) w).
Proof.
  intros _ Hlen Hrx. split.
  - unfold frame. now apply unpack_pack.
  - exact (recv_obj_frame p rest r w Hlen Hrx).
Qed.

(** C2 (corrected): [dispatch] has no [enter_maintenance] case. A request
    whose "type" is "enter_maintenance" is answered like any unknown
    command: the loop consumes its frame, writes the frame of
    {"type": "error", "code": "UNKNOWN_CMD", "message":
    "Unknown command: enter_maintenance"} and returns to wait for the next
    request; no flag is created and no reboot is performed. *)
Theorem enter_maintenance_answered (t : Transport) (p rest : bytes)
  (r : list Arrival) (w : World) (d : list (string * Value)) :
  wfaults w = [] ->
  (N.of_nat (String.length p) < 2 ^ 32)%N ->
  rx w = data_cons (frame p ++ rest) r ->
  json_loads p = Ok (VDict d) ->
  dict_get d "type" = VStr "enter_maintenance" ->
  main_iter t w =
    (Ret tt, set_tx (tx w ++ frame (dumps enter_maintenance_resp))
               (set_rx (data_cons rest r) w)).
Proof.
  intros Hf Hlen Hrx Hj Ht.
  rewrite (main_iter_frame t p rest r w Hf Hlen Hrx).
  unfold response. rewrite Hj. unfold dispatch. rewrite Ht. reflexivity.
Qed.

(** C3 (corrected): the loop never ends with an exception: every run of
    [n] passes returns or waits for input; a pass whose body raises [e]
    makes exactly one further attempt, writing the EXC response with
    [str(e)], and swallows its failure. There is no pause: no pass ever
    sleeps, the next [read_obj] follows at once. *)
Theorem main_loop_never_raises (t : Transport) :
  (forall n w, fst (serve t n w) = Ret tt \/ fst (serve t n w) = Hang) /\
  (forall w e w',
     (req <- read_obj t ;; resp <- dispatch req ;; write_obj t resp) w = (Raise e, w') ->
     main_iter t w = (Ret tt, snd (write_obj t (exc_resp e) w'))) /\
  (forall n w, slept (snd (serve t n w)) = slept w).
Proof.
  split; [exact (serve_outcome t)|]. split.
  - intros w e w' H. unfold main_iter.
    rewrite (try_except_raise _ _ w w' e H).
    unfold write_obj. apply send_obj_swallowed.
  - intros n w. apply keeps_serve.
Qed.

(** C4: [in_maintenance] is the first-match boot decision: a listed flag
    gives Maintenance and is deleted when storage allows (a failed delete
    is ignored); otherwise a low pin gives Maintenance; otherwise
    Production; a failing [listdir] or pin read falls through. *)
Theorem boot_decision_first_match (st : Storage) (pin : PinRead) :
  (mode_of (fst (in_maintenance st pin)), snd (in_maintenance st pin))
  = boot_decision_spec st pin.
Proof.
  destruct st as [files lf rf].
  unfold in_maintenance, boot_decision_spec, flag_probe, pin_probe, delete_flag,
    os_listdir, os_remove.
  cbn [listdir_fails remove_fails st_files].
  destruct lf; [destruct pin as [v|]; [destruct (v =? 0)%Z|]; reflexivity|].
  destruct (existsb _ files); [destruct rf; reflexivity|].
  destruct pin as [v|]; [destruct (v =? 0)%Z|]; reflexivity.
Qed.

(** C5 (corrected): the flag is one-shot only when it can be deleted.
    With the flag listed the boot is Maintenance; if the delete succeeds
    the flag is gone and the next boot with the pin high is Production;
    if it fails (read-only storage, or a directory of that name) storage
    is unchanged and the next boot is Maintenance again. *)
Theorem maint_flag_one_shot_if_removable (st : Storage) (pin : PinRead) (v : Z) :
  listdir_fails st = false -> In MAINT_FLAG (st_files st) -> v <> 0%Z ->
  fst (in_maintenance st pin) = true /\
  (remove_fails st = false ->
     ~ In MAINT_FLAG (st_files (snd (in_maintenance st pin))) /\
     fst (in_maintenance (snd (in_maintenance st pin)) (PinLevel v)) = false) /\
  (remove_fails st = true ->
     snd (in_maintenance st pin) = st /\
     fst (in_maintenance (snd (in_maintenance st pin)) (PinLevel v)) = true).
Proof.
  intros Hl Hin Hv.
  assert (He : existsb (String.eqb MAINT_FLAG) (st_files st) = true).
  { apply existsb_exists. exists MAINT_FLAG. split; [exact Hin | apply String.eqb_refl]. }
  rewrite (in_maintenance_flag st pin Hl He). cbn [fst snd].
  split; [reflexivity|]. split.
  - intro Hr. unfold delete_flag. rewrite Hr. split.
    + cbn [st_files]. intro H. apply filter_In in H as [_ H].
      rewrite String.eqb_refl in H. discriminate.
    + rewrite in_maintenance_noflag.
      * cbn [fst]. now apply Z.eqb_neq.
      * exact Hl.
      * apply not_in_filtered.
  - intro Hr. unfold delete_flag. rewrite Hr. split; [reflexivity|].
    now rewrite (in_maintenance_flag st _ Hl He).
Qed.

Lemma maint_flag_one_shot_if_removable_witness :
  fst (in_maintenance (mkStorage [MAINT_FLAG] false false) (PinLevel 1)) = true /\
  fst (in_maintenance (snd (in_maintenance (mkStorage [MAINT_FLAG] false false)
                              (PinLevel 1))) (PinLevel 1)) = false.
Proof.
  destruct (maint_flag_one_shot_if_removable (mkStorage [MAINT_FLAG] false false)
              (PinLevel 1) 1) as [H1 [H2 _]].
  - reflexivity.
  - simpl. left. reflexivity.
  - lia.
  - split; [exact H1 | exact (proj2 (H2 eq_refl))].
Defined.

(** Refutes C5: when the delete fails the flag survives, and two
    consecutive boots with the pin high both choose Maintenance. *)
Lemma maint_flag_honored_twice :
  fst (in_maintenance (mkStorage [MAINT_FLAG] false true) (PinLevel 1)) = true /\
  fst (in_maintenance (snd (in_maintenance (mkStorage [MAINT_FLAG] false true)
                              (PinLevel 1))) (PinLevel 1)) = true.
Proof. split; reflexivity. Qed.



(** C8 (corrected): with writes succeeding, [n] passes over [n] frames
    write exactly [n] response frames, in request order, one per request;
    [enter_maintenance] is no exception: it gets its UNKNOWN_CMD response
    like any other request. *)
Theorem serve_one_response_each (t : Transport) (ps : list bytes) (rest : bytes)
  (r : list Arrival) (w : World) :
  Forall (fun p => N.of_nat (String.length p) < 2 ^ 32)%N ps ->
  wfaults w = [] ->
  rx w = data_cons (frames ps ++ rest) r ->
  serve t (length ps) w =
    (Ret tt, set_tx (tx w ++ frames (map (fun p => dumps (response w p)) ps))
               (set_rx (data_cons rest r) w)) /\
  (forall p d, json_loads p = Ok (VDict d) ->
     dict_get d "type" = VStr "enter_maintenance" ->
     response w p = enter_maintenance_resp).
Proof.
  intros Hps Hf Hrx. split.
  - exact (serve_frames t ps Hps rest r w Hf Hrx).
  - intros p d Hj Ht. unfold response. rewrite Hj. unfold dispatch.
    rewrite Ht. reflexivity.
Qed.

(** C9: [Transport.__init__] binds the first available channel in the
    order data channel, console, UART 0 at 115200 baud on pins 0 and 1;
    [main] selects it once and every pass uses that same handle. *)
Theorem transport_priority (usb_cdc : option UsbCdc) :
  Transport_init usb_cdc = mkTransport (select_spec usb_cdc) /\
  (forall n w, main usb_cdc n w = serve (mkTransport (select_spec usb_cdc)) n w).
Proof.
  assert (H : Transport_init usb_cdc = mkTransport (select_spec usb_cdc)).
  { destruct usb_cdc as [[[] []]|]; reflexivity. }
  split; [exact H|]. intros n w. unfold main. cbv zeta. now rewrite H.
Qed.

(** C10: for every message whose JSON text is shorter than 2^32 bytes,
    [send_obj] writes a 4-byte header then the JSON text; the header
    decodes to the text's exact length, which is never 0. *)
Theorem send_obj_header_ok (v : Value) (w : World) :
  (N.of_nat (String.length (dumps v)) < 2 ^ 32)%N ->
  wfaults w = [] ->
  exists hdr,
    send_obj v w = (Ret tt, set_tx (tx w ++ hdr ++ dumps v) w) /\
    String.length hdr = 4 /\
    unpack_be32 hdr = N.of_nat (String.length (dumps v)) /\
    (0 < unpack_be32 hdr)%N.
Proof.
  intros Hlen Hf. exists (pack_be32 (N.of_nat (String.length (dumps v)))).
  rewrite send_obj_ok by exact Hf. unfold frame.
  rewrite unpack_pack0 by exact Hlen.
  split; [reflexivity|]. split; [apply pack_length|]. split; [reflexivity|].
  destruct (dumps_head v) as (c & t & E). rewrite E. simpl. lia.
Qed.

Lemma send_obj_header_ok_witness :
  exists hdr,
    send_obj VNone (mkWorld [] "" [] 0 0 0)
    = (Ret tt, set_tx ("" ++ hdr ++ "null") (mkWorld [] "" [] 0 0 0)) /\
    String.length hdr = 4 /\ unpack_be32 hdr = 4%N /\ (0 < unpack_be32 hdr)%N.
Proof.
  apply (send_obj_header_ok VNone (mkWorld [] "" [] 0 0 0)).
  - vm_compute. reflexivity.
  - reflexivity.
Defined.

(** * Further properties of the code *)

(** ** [read_n] over arbitrary chunking *)

(** X1: [read_n dev n] returns the first [n] bytes that arrive, however
    the channel splits them into chunks and however many empty reads
    come between; the bytes after them stay pending, in order, in front
    of later arrivals. *)
Theorem read_n_any_chunking (cs : list bytes) (r0 : list Arrival) (xs ys : bytes)
  (w : World) :
  rx w = (map Chunk cs ++ r0)%list ->
  concat_bytes cs = xs ++ ys ->
  exists cs',
    read_n (String.length xs) w = (Ret xs, set_rx (map Chunk cs' ++ r0)%list w) /\
    concat_bytes cs' = ys.
Proof.
  intros Hrx H. destruct (read_loop_chunks cs r0 "" xs ys H) as [cs' [E Hc]].
  exists cs'. split; [|exact Hc].
  unfold read_n. rewrite Hrx. cbn [String.length Nat.add String.append] in E.
  rewrite E. reflexivity.
Qed.

Lemma read_n_any_chunking_witness :
  exists cs',
    read_n (String.length "ab") (mkWorld [Chunk ""; Chunk "a"; Chunk ""; Chunk "bcd"] "" [] 0 0 0)
    = (Ret "ab", set_rx (map Chunk cs' ++ [])%list
                   (mkWorld [Chunk ""; Chunk "a"; Chunk ""; Chunk "bcd"] "" [] 0 0 0)) /\
    concat_bytes cs' = "cd".
Proof.
  apply (read_n_any_chunking [""; "a"; ""; "bcd"] [] "ab" "cd").
  - reflexivity.
  - reflexivity.
Defined.

(** X2: [read_n] never returns fewer bytes than asked: when fewer than
    [n] bytes arrive in all, it consumes them and busy-waits forever. *)
Theorem read_n_never_short (cs : list bytes) (n : nat) (w : World) :
  rx w = map Chunk cs ->
  String.length (concat_bytes cs) < n ->
  read_n n w = (Hang, set_rx [] w).
Proof.
  intros Hrx Hl. unfold read_n. rewrite Hrx.
  rewrite <- (app_nil_r (map Chunk cs)).
  rewrite read_loop_short by (simpl; lia).
  rewrite read_loop_nil by (apply Nat.ltb_lt; simpl; lia).
  reflexivity.
Qed.

Lemma read_n_never_short_witness :
  read_n 4 (mkWorld [Chunk "ab"; Chunk ""; Chunk "c"] "" [] 0 0 0)
  = (Hang, set_rx [] (mkWorld [Chunk "ab"; Chunk ""; Chunk "c"] "" [] 0 0 0)).
Proof.
  apply (read_n_never_short ["ab"; ""; "c"] 4).
  - reflexivity.
  - simpl. lia.
Defined.



(** ** [boot.py] *)

(** X16: [in_maintenance] deletes no file but the flag: every other
    entry of the root directory is there after boot exactly when it was
    there before. *)
Theorem boot_keeps_other_files (st : Storage) (pin : PinRead) (f : string) :
  f <> MAINT_FLAG ->
  (In f (st_files (snd (in_maintenance st pin))) <-> In f (st_files st)).
Proof.
  intro Hf. unfold in_maintenance, os_listdir, os_remove.
  destruct (listdir_fails st); [destruct pin; reflexivity|].
  destruct (existsb (String.eqb MAINT_FLAG) (st_files st)); [|destruct pin; reflexivity].
  destruct (remove_fails st); [reflexivity|]. cbn [snd st_files].
  rewrite filter_In. apply String.eqb_neq in Hf. rewrite Hf. cbn [negb].
  split; [intros [H _]; exact H | intro H; split; [exact H | reflexivity]].
Qed.

Lemma boot_keeps_other_files_witness :
  (In "main.py" (st_files (snd (in_maintenance
      (mkStorage ["boot.py"; MAINT_FLAG; "main.py"] false false) (PinLevel 1))))
   <-> In "main.py" (st_files (mkStorage ["boot.py"; MAINT_FLAG; "main.py"] false false))).
Proof.
  apply boot_keeps_other_files. discriminate.
Defined.

(** X17: [boot.py] leaves the REPL attached exactly when [dupterm]
    fails or the boot is a maintenance boot, i.e. when the flag is
    listed or the pin reads low; a failing pin read counts as
    production. *)
Theorem boot_repl_attached (st : Storage) (pin : PinRead) (dupterm_fails : bool) :
  snd (boot_script st pin dupterm_fails)
  = dupterm_fails
    || (negb (listdir_fails st) && existsb (String.eqb MAINT_FLAG) (st_files st))
    || match pin with PinLevel v => Z.eqb v 0 | PinFault => false end.
Proof.
  unfold boot_script, in_maintenance, os_listdir, os_remove.
  destruct (listdir_fails st); cbn [negb andb orb].
  - destruct pin as [v|]; [destruct (Z.eqb v 0)|]; destruct dupterm_fails; reflexivity.
  - destruct (existsb (String.eqb MAINT_FLAG) (st_files st)); cbn [andb orb].
    + destruct (remove_fails st); destruct dupterm_fails; reflexivity.
    + destruct pin as [v|]; [destruct (Z.eqb v 0)|]; destruct dupterm_fails; reflexivity.
Qed.

End Program.

(** * Runs with MicroPython's decoder

    The witnesses and counterexamples below run the program with
    [json_loads_mp], the [json.loads] of MicroPython's [ujson] module. *)

Lemma recv_obj_accepts_oversize_witness :
  N.of_nat (String.length oversize_payload) = 65537%N /\
  unpack_be32 (frame oversize_payload) = N.of_nat (String.length oversize_payload) /\
  recv_obj json_loads_mp (mkWorld [Chunk (frame oversize_payload)] "" [] 0 0 0)
  = (to_outcome (json_loads_mp oversize_payload),
     set_rx (data_cons "" []) (mkWorld [Chunk (frame oversize_payload)] "" [] 0 0 0)).
Proof.
  split; [vm_compute; reflexivity|].
  apply recv_obj_accepts_oversize.
  - vm_compute. reflexivity.
  - vm_compute. reflexivity.
  - rewrite str_app_nil_r. reflexivity.
Defined.

Lemma enter_maintenance_answered_witness :
  main_iter json_loads_mp (mkTransport UsbData)
    (mkWorld [Chunk (frame (dumps (VDict [("type", VStr "enter_maintenance")])))]
       "" [] 0 0 0)
  = (Ret tt, mkWorld [] (frame (dumps enter_maintenance_resp)) [] 0 0 0).
Proof.
  rewrite (enter_maintenance_answered json_loads_mp (mkTransport UsbData)
             (dumps (VDict [("type", VStr "enter_maintenance")])) "" []
             (mkWorld [Chunk (frame (dumps (VDict [("type", VStr "enter_maintenance")])))]
                "" [] 0 0 0)
             [("type", VStr "enter_maintenance")]).
  - reflexivity.
  - reflexivity.
  - vm_compute. reflexivity.
  - vm_compute. reflexivity.
  - vm_compute. reflexivity.
  - reflexivity.
Defined.

(** Refutes C2: on an [enter_maintenance] request the loop writes a
    response and carries on; the run does not end. *)
Lemma enter_maintenance_not_rebooting :
  main_iter json_loads_mp (mkTransport UsbData)
    (mkWorld [Chunk (frame (dumps (VDict [("type", VStr "enter_maintenance")])));
              Chunk (frame (dumps (VDict [("type", VStr "echo")])))] "" [] 0 0 0)
  = (Ret tt, mkWorld [Chunk (frame (dumps (VDict [("type", VStr "echo")])))]
               (frame (dumps enter_maintenance_resp)) [] 0 0 0)
  /\ frame (dumps enter_maintenance_resp) <> "".
Proof. split; [vm_compute; reflexivity | discriminate]. Qed.

Lemma main_loop_never_raises_witness :
  main_iter json_loads_mp (mkTransport UsbData) (mkWorld [Chunk (frame "x")] "" [] 0 0 0)
  = (Ret tt, snd (write_obj (mkTransport UsbData) (exc_resp json_error)
                   (mkWorld [] "" [] 0 0 0))).
Proof.
  apply (proj1 (proj2 (main_loop_never_raises json_loads_mp (mkTransport UsbData)))).
  vm_compute. reflexivity.
Defined.

(** Refutes C3's pause: after a faulting pass (a payload that is not
    JSON) the EXC response is written and the pass ends with no time
    spent sleeping. *)
Lemma main_loop_no_pause :
  main_iter json_loads_mp (mkTransport UsbData) (mkWorld [Chunk (frame "x")] "" [] 0 0 0)
  = (Ret tt, mkWorld [] (frame (dumps (exc_resp json_error))) [] 0 0 0).
Proof. vm_compute. reflexivity. Qed.





Lemma serve_one_response_each_witness :
  serve json_loads_mp (mkTransport UsbData) 2
    (mkWorld [Chunk (frames [dumps (VDict [("type", VStr "enter_maintenance")]);
                             dumps (VDict [("type", VStr "ping")])])] "" [] 5 0 0)
  = (Ret tt,
     mkWorld [] (frames [dumps enter_maintenance_resp;
                         dumps (VDict [("type", VStr "pong"); ("ts", VInt 5);
                                       ("version", VStr VERSION)])]) [] 5 0 0).
Proof.
  destruct (serve_one_response_each json_loads_mp (mkTransport UsbData)
    [dumps (VDict [("type", VStr "enter_maintenance")]);
     dumps (VDict [("type", VStr "ping")])] "" []
    (mkWorld [Chunk (frames [dumps (VDict [("type", VStr "enter_maintenance")]);
                             dumps (VDict [("type", VStr "ping")])])] "" [] 5 0 0))
    as [H _].
  - apply Forall_cons; [vm_compute; reflexivity|].
    apply Forall_cons; [vm_compute; reflexivity|]. apply Forall_nil.
  - reflexivity.
  - vm_compute. reflexivity.
  - cbn [length] in H. rewrite H. vm_compute. reflexivity.
Defined.

(** Refutes C8: an [enter_maintenance] request followed by a [ping]
    yields two responses, and the run goes on. *)
Lemma enter_maintenance_gets_response :
  serve json_loads_mp (mkTransport UsbData) 2
    (mkWorld [Chunk (frame (dumps (VDict [("type", VStr "enter_maintenance")])));
              Chunk (frame (dumps (VDict [("type", VStr "ping")])))] "" [] 9 0 0)
  = (Ret tt,
     mkWorld [] (frame (dumps enter_maintenance_resp) ++
                 frame (dumps (VDict [("type", VStr "pong"); ("ts", VInt 9);
                                      ("version", VStr VERSION)]))) [] 9 0 0).
Proof. vm_compute. reflexivity. Qed.


(** X4: a header declaring length 0 reads no payload: [json.loads] of
    the empty payload raises ValueError, and the pass answers with the
    EXC response "syntax error in JSON" having consumed exactly the four
    header bytes. *)
Theorem zero_length_header (t : Transport) (rest : bytes) (r : list Arrival) (w : World) :
  wfaults w = [] ->
  rx w = data_cons (pack_be32 0 ++ rest) r ->
  main_iter json_loads_mp t w =
    (Ret tt, set_tx (tx w ++ frame (dumps (exc_resp json_error)))
               (set_rx (data_cons rest r) w)).
Proof.
  intros Hf Hrx.
  rewrite (main_iter_frame json_loads_mp t "" rest r w Hf) by (exact eq_refl || exact Hrx).
  reflexivity.
Qed.

Lemma zero_length_header_witness :
  main_iter json_loads_mp (mkTransport UsbData)
    (mkWorld [Chunk (pack_be32 0 ++ pack_be32 2 ++ "{}")] "" [] 0 0 0)
  = (Ret tt, set_tx ("" ++ frame (dumps (exc_resp json_error)))
               (set_rx (data_cons (pack_be32 2 ++ "{}") [])
                  (mkWorld [Chunk (pack_be32 0 ++ pack_be32 2 ++ "{}")] "" [] 0 0 0))).
Proof.
  apply zero_length_header.
  - reflexivity.
  - vm_compute. reflexivity.
Defined.

